(** * libfusn_extern.h: the linkage-annotation selector of libfusn

    The header [libfsntfs/libfusn/libfusn_extern.h] contains no run-time
    code.  What it does happens while the C preprocessor reads it: it
    tests a handful of symbols with [#if defined], defines macros with
    [#define] and pulls in two other headers with [#include].

    The development below embeds that behaviour.  A preprocessor state
    carries the macro table, the list of directives the header executed
    and the names of macros that were redefined with a different
    replacement list.  Each directive is a function on that state; the
    header is the composition of its directives, written in the order
    and with the nesting of the source. *)

From stdpp Require Import gmap strings list fin_maps.

(** ** Preprocessor model *)

Module Cpp.

(** A preprocessing token.  The header only handles identifiers and
    keywords, so the spelling is enough. *)
Abbreviation token := string.

(** The macro table maps the name of an object-like macro to its
    replacement list. *)
Abbreviation macro_table := (gmap string (list token)).

(** What an included file does to the macro table. *)
Definition header := macro_table -> macro_table.

(** The include path: the headers that can be found, by name. *)
Definition include_path := string -> option header.

(** The directives a header executes, in order.  [EvInclude] records the
    macro table the included file is handed. *)
Inductive event :=
| EvDefine (name : string) (body : list token)
| EvInclude (file : string) (seen : macro_table).

Record pp_state := PPState {
  macros : macro_table;
  trace : list event;
  redefined : list string
}.

(** Preprocessing either goes on or stops with a fatal error. *)
Inductive outcome :=
| Done (st : pp_state)
| Fatal (st : pp_state).

Definition state_of (o : outcome) : pp_state :=
  match o with Done st => st | Fatal st => st end.

Definition directive := pp_state -> outcome.

Definition seq (d1 d2 : directive) : directive :=
  fun st => match d1 st with
            | Done st' => d2 st'
            | Fatal st' => Fatal st'
            end.

Definition skip : directive := Done.

(** [defined( name )] *)
Definition defined (name : string) (m : macro_table) : bool :=
  match m !! name with Some _ => true | None => false end.

(** [#define name body].  Defining a macro again with another
    replacement list is diagnosed, and the new definition is the one
    in force afterwards. *)
Definition pp_define (name : string) (body : list token) : directive :=
  fun st =>
    Done {| macros := <[name := body]> (macros st);
            trace := trace st ++ [EvDefine name body];
            redefined :=
              match macros st !! name with
              | Some old =>
                  if decide (old = body) then redefined st
                  else redefined st ++ [name]
              | None => redefined st
              end |}.

(** [#if cond ... #else ... #endif] *)
Definition pp_if (cond : macro_table -> bool) (thn els : directive)
  : directive :=
  fun st => if cond (macros st) then thn st else els st.

Section WithIncludePath.
Variable path : include_path.

(** [#include <file>].  A file that cannot be found is a fatal
    error. *)
Definition pp_include (file : string) : directive :=
  fun st =>
    let logged := trace st ++ [EvInclude file (macros st)] in
    match path file with
    | Some h =>
        Done {| macros := h (macros st);
                trace := logged;
                redefined := redefined st |}
    | None =>
        Fatal {| macros := macros st;
                 trace := logged;
                 redefined := redefined st |}
    end.
End WithIncludePath.

(** Macro replacement of a token list.  A name being replaced is not
    replaced again inside its own expansion ([hide]).  Each nested
    replacement hides one more defined name, so a depth of
    [size m] is never exceeded. *)
Fixpoint expand (fuel : nat) (m : macro_table) (hide : list string)
                (toks : list token) : list token :=
  match fuel with
  | 0 => toks
  | S fuel' =>
      flat_map
        (fun t =>
           if bool_decide (t ∈ hide) then [t]
           else match m !! t with
                | Some body => expand fuel' m (t :: hide) body
                | None => [t]
                end)
        toks
  end.

Definition expand_tokens (m : macro_table) (toks : list token)
  : list token :=
  expand (S (size m)) m [] toks.

Definition start (m : macro_table) : pp_state :=
  {| macros := m; trace := []; redefined := [] |}.

End Cpp.

Import Cpp.

Infix ">>>" := seq (at level 65, right associativity).

(** ** The symbols of the header *)

Definition _LIBFUSN_INTERNAL_EXTERN_H : string := "_LIBFUSN_INTERNAL_EXTERN_H".
Definition HAVE_LOCAL_LIBFUSN : string := "HAVE_LOCAL_LIBFUSN".
Definition _WIN32 : string := "_WIN32".
Definition DLL_EXPORT : string := "DLL_EXPORT".
Definition LIBFUSN_DLL_EXPORT : string := "LIBFUSN_DLL_EXPORT".
Definition LIBFUSN_EXTERN : string := "LIBFUSN_EXTERN".
Definition LIBFUSN_EXTERN_VARIABLE : string := "LIBFUSN_EXTERN_VARIABLE".

Definition common_h : string := "common.h".
Definition libfusn_extern_h_name : string := "libfusn/extern.h".
Definition kw_extern : token := "extern".

(** ** The header, directive by directive *)

Section Header.
Variable path : include_path.

(** Lines 29 to 46: the choice of the annotation.  The comment that
    follows [LIBFUSN_EXTERN] on line 43 is white space by the time
    the directive is read, so the replacement list there is empty. *)
Definition linkage_block : directive :=
  pp_if (fun m => negb (defined HAVE_LOCAL_LIBFUSN m))
    ( pp_if (fun m => defined _WIN32 m && defined DLL_EXPORT m)
        (pp_define LIBFUSN_DLL_EXPORT [])
        skip >>>
      pp_include path libfusn_extern_h_name >>>
      pp_define LIBFUSN_EXTERN_VARIABLE [LIBFUSN_EXTERN] )
    ( pp_define LIBFUSN_EXTERN [] >>>
      pp_define LIBFUSN_EXTERN_VARIABLE [kw_extern] ).

(** Lines 22 to 48: the whole header. *)
Definition libfusn_extern_h : directive :=
  pp_if (fun m => negb (defined _LIBFUSN_INTERNAL_EXTERN_H m))
    ( pp_define _LIBFUSN_INTERNAL_EXTERN_H [] >>>
      pp_include path common_h >>>
      linkage_block )
    skip.

(** Including the header [n] times in a row. *)
Fixpoint include_times (n : nat) : directive :=
  match n with
  | 0 => skip
  | S n' => libfusn_extern_h >>> include_times n'
  end.
End Header.

(** ** Reading the outcome *)

(** The build configuration as the conditionals of lines 29 and 34
    read it: the table the header was entered with, with the guard of
    line 23 set and [common.h] processed, which may itself define any
    of the symbols. *)
Definition at_conditionals (common : header) (m : macro_table)
  : macro_table :=
  common (<[_LIBFUSN_INTERNAL_EXTERN_H := []]> m).

(** The three ways a symbol of the library can be annotated. *)
Inductive linkage_mode := LocalLinkage | DllExport | DllImport.

(** How each mode shows in the directives executed: the local mode by
    the header defining [LIBFUSN_EXTERN] itself, with nothing in it;
    the two others by handing the choice to [libfusn/extern.h], with
    [LIBFUSN_DLL_EXPORT] set for export and unset for import. *)
Definition event_selects (mode : linkage_mode) (e : event) : bool :=
  match mode, e with
  | LocalLinkage, EvDefine name body =>
      bool_decide (name = LIBFUSN_EXTERN) && bool_decide (body = [])
  | DllExport, EvInclude file seen =>
      bool_decide (file = libfusn_extern_h_name)
      && defined LIBFUSN_DLL_EXPORT seen
  | DllImport, EvInclude file seen =>
      bool_decide (file = libfusn_extern_h_name)
      && negb (defined LIBFUSN_DLL_EXPORT seen)
  | _, _ => false
  end.

Definition selects (mode : linkage_mode) (tr : list event) : bool :=
  existsb (event_selects mode) tr.

(** The header asked for [file]. *)
Definition includes (file : string) (tr : list event) : bool :=
  existsb (fun e => match e with
                    | EvInclude f _ => bool_decide (f = file)
                    | EvDefine _ _ => false
                    end) tr.

(** The header executed a [#define] of [name]. *)
Definition defines (name : string) (tr : list event) : bool :=
  existsb (fun e => match e with
                    | EvDefine n _ => bool_decide (n = name)
                    | EvInclude _ _ => false
                    end) tr.

(** A directive as it is written, without the table it saw. *)
Definition written (e : event) : string * string :=
  match e with
  | EvDefine name _ => ("#define"%string, name)
  | EvInclude file _ => ("#include"%string, file)
  end.

(** [e1] was executed before [e2]. *)
Definition before (e1 e2 : event) (tr : list event) : Prop :=
  ∃ l1 l2 l3, tr = l1 ++ e1 :: l2 ++ e2 :: l3.

(** An include path on which [file] cannot be found. *)
Definition without (file : string) (path : include_path) : include_path :=
  fun f => if decide (f = file) then None else path f.

(** An included file that does not undefine [name]. *)
Definition keeps (name : string) (h : header) : Prop :=
  ∀ m, defined name m = true → defined name (h m) = true.

(** Two tables in which the three symbols tested by the header are
    defined or undefined alike. *)
Definition same_configuration (a b : macro_table) : Prop :=
  defined HAVE_LOCAL_LIBFUSN a = defined HAVE_LOCAL_LIBFUSN b
  ∧ defined _WIN32 a = defined _WIN32 b
  ∧ defined DLL_EXPORT a = defined DLL_EXPORT b.

(** Two tables that give the same definitions to the three macros the
    header is there to provide. *)
Definition same_definitions (a b : macro_table) : Prop :=
  a !! LIBFUSN_EXTERN = b !! LIBFUSN_EXTERN
  ∧ a !! LIBFUSN_EXTERN_VARIABLE = b !! LIBFUSN_EXTERN_VARIABLE
  ∧ a !! LIBFUSN_DLL_EXPORT = b !! LIBFUSN_DLL_EXPORT.

(** A companion header whose [LIBFUSN_EXTERN] and [LIBFUSN_DLL_EXPORT]
    depend on nothing but the [LIBFUSN_DLL_EXPORT] it is handed. *)
Definition decided_by_dll_export (h : header) : Prop :=
  ∀ a b, a !! LIBFUSN_DLL_EXPORT = b !! LIBFUSN_DLL_EXPORT →
         h a !! LIBFUSN_EXTERN = h b !! LIBFUSN_EXTERN
         ∧ h a !! LIBFUSN_DLL_EXPORT = h b !! LIBFUSN_DLL_EXPORT.

(** The replacement list of [name] holds no macro name. *)
Definition plain_body (name : string) (m : macro_table) : bool :=
  match m !! name with
  | Some body => forallb (fun t => negb (defined t m)) body
  | None => true
  end.

(** ** Sample build environments

    The two included files are not part of the source tree; the
    theorems take them as they come, through the include path.  The
    samples below are used to run the header on concrete inputs. *)

Definition dll_export_attribute : list token :=
  ["__declspec"; "("; "dllexport"; ")"]%string.
Definition dll_import_attribute : list token :=
  ["__declspec"; "("; "dllimport"; ")"]%string.

(** Modelled from the spec: [libfusn/extern.h] is missing from the
    source tree.  The spec has it "supply the actual platform
    export/import attribute": export when [LIBFUSN_DLL_EXPORT] was set
    before it is included, import otherwise. *)
Definition extern_h_model : header :=
  fun m =>
    if defined LIBFUSN_DLL_EXPORT m
    then <[LIBFUSN_EXTERN := dll_export_attribute]> m
    else <[LIBFUSN_EXTERN := dll_import_attribute]> m.

(** A [common.h] that defines nothing. *)
Definition plain_common_h : header := fun m => m.

(** A [common.h] written by a configure step that chose the local
    copy of libfusn. *)
Definition local_common_h : header :=
  fun m => <[HAVE_LOCAL_LIBFUSN := ["1"%string]]> m.

(** A shared build: both headers are on the include path. *)
Definition shared_path : include_path :=
  fun f =>
    if decide (f = common_h) then Some plain_common_h
    else if decide (f = libfusn_extern_h_name) then Some extern_h_model
    else None.

(** A local build: [common.h] only. *)
Definition local_path : include_path :=
  fun f => if decide (f = common_h) then Some local_common_h else None.

(** A build that defines none of the symbols. *)
Definition bare_build : macro_table := ∅.

(** A build that differs from [bare_build] by a symbol the header
    does not read. *)
Definition release_build : macro_table := {[ "NDEBUG"%string := [] ]}.

(** A Windows DLL build under libtool. *)
Definition windows_dll : macro_table :=
  {[ _WIN32 := ["1"%string]; DLL_EXPORT := ["1"%string] ]}.

(** A build that sets [LIBFUSN_DLL_EXPORT] itself, on the command
    line, and neither [_WIN32] nor [DLL_EXPORT]. *)
Definition preset_export : macro_table :=
  {[ LIBFUSN_DLL_EXPORT := [] ]}.

(** The table [libfusn/extern.h] is handed in a build that is not
    local, and the directives executed up to and including its
    inclusion; both are related to the header by [block_shared]. *)
Definition handed_to_companion (cfg : macro_table) : macro_table :=
  if defined _WIN32 cfg && defined DLL_EXPORT cfg
  then <[LIBFUSN_DLL_EXPORT := []]> cfg
  else cfg.

Definition companion_prelude (cfg : macro_table) : list event :=
  (if defined _WIN32 cfg && defined DLL_EXPORT cfg
   then [EvDefine LIBFUSN_DLL_EXPORT []]
   else [])
  ++ [EvInclude libfusn_extern_h_name (handed_to_companion cfg)].

(** The directives every first inclusion starts with. *)
Definition opening (m : macro_table) : list event :=
  [EvDefine _LIBFUSN_INTERNAL_EXTERN_H [];
   EvInclude common_h (<[_LIBFUSN_INTERNAL_EXTERN_H := []]> m)].

(** The macros the header has a [#define] for, on lines 23, 35, 40,
    43 and 44. *)
Definition own_macros : list string :=
  [_LIBFUSN_INTERNAL_EXTERN_H; LIBFUSN_DLL_EXPORT;
   LIBFUSN_EXTERN; LIBFUSN_EXTERN_VARIABLE].




(** An include path whose [libfusn/extern.h] defines nothing. *)
Definition silent_path : include_path :=
  fun f =>
    if decide (f = common_h) then Some plain_common_h
    else if decide (f = libfusn_extern_h_name) then Some plain_common_h
    else None.

(** ** Symbolic execution of the header *)

Ltac names_differ := solve [ vm_compute; discriminate ].

Lemma defined_true (name : string) (m : macro_table) :
  defined name m = true ↔ is_Some (m !! name).
Proof.
  unfold defined. destruct (m !! name) eqn:E; split; intros H.
  - by eexists.
  - done.
  - done.
  - by destruct H.
Qed.

Lemma defined_false (name : string) (m : macro_table) :
  defined name m = false ↔ m !! name = None.
Proof. unfold defined. by destruct (m !! name). Qed.

Lemma defined_insert (name : string) (body : list token) (m : macro_table) :
  defined name (<[name := body]> m) = true.
Proof. unfold defined. by rewrite lookup_insert_eq. Qed.

Lemma defined_insert_ne (n1 n2 : string) (body : list token)
      (m : macro_table) :
  n1 ≠ n2 → defined n2 (<[n1 := body]> m) = defined n2 m.
Proof. intros H. unfold defined. by rewrite lookup_insert_ne. Qed.

Section Execution.
Variable path : include_path.

Lemma enter_header (m : macro_table) (common : header) :
  m !! _LIBFUSN_INTERNAL_EXTERN_H = None →
  path common_h = Some common →
  libfusn_extern_h path (start m)
  = linkage_block path
      {| macros := at_conditionals common m;
         trace := opening m;
         redefined := [] |}.
Proof.
  intros Hg Hc.
  unfold libfusn_extern_h, pp_if, defined, seq, pp_define, pp_include.
  cbn [macros trace redefined start]. rewrite Hg. cbn [negb].
  rewrite Hc. reflexivity.
Qed.

Lemma enter_header_no_common (m : macro_table) :
  m !! _LIBFUSN_INTERNAL_EXTERN_H = None →
  path common_h = None →
  libfusn_extern_h path (start m)
  = Fatal {| macros := <[_LIBFUSN_INTERNAL_EXTERN_H := []]> m;
             trace := opening m;
             redefined := [] |}.
Proof.
  intros Hg Hc.
  unfold libfusn_extern_h, pp_if, defined, seq, pp_define, pp_include.
  cbn [macros trace redefined start]. rewrite Hg. cbn [negb].
  rewrite Hc. reflexivity.
Qed.

Lemma reenter_header (st : pp_state) :
  defined _LIBFUSN_INTERNAL_EXTERN_H (macros st) = true →
  libfusn_extern_h path st = Done st.
Proof.
  intros Hg. unfold libfusn_extern_h, pp_if. by rewrite Hg.
Qed.

Lemma block_local (st : pp_state) :
  defined HAVE_LOCAL_LIBFUSN (macros st) = true →
  ∃ r, linkage_block path st
       = Done {| macros := <[LIBFUSN_EXTERN_VARIABLE := [kw_extern]]>
                             (<[LIBFUSN_EXTERN := []]> (macros st));
                 trace := trace st
                          ++ [EvDefine LIBFUSN_EXTERN [];
                              EvDefine LIBFUSN_EXTERN_VARIABLE [kw_extern]];
                 redefined := r |}.
Proof.
  intros Hl. unfold linkage_block, pp_if. rewrite Hl. cbn [negb].
  unfold seq, pp_define. cbn [macros trace redefined].
  rewrite <- app_assoc. eexists. reflexivity.
Qed.

Lemma block_shared (st : pp_state) (companion : header) :
  defined HAVE_LOCAL_LIBFUSN (macros st) = false →
  path libfusn_extern_h_name = Some companion →
  ∃ r, linkage_block path st
       = Done {| macros := <[LIBFUSN_EXTERN_VARIABLE := [LIBFUSN_EXTERN]]>
                             (companion (handed_to_companion (macros st)));
                 trace := trace st ++ companion_prelude (macros st)
                          ++ [EvDefine LIBFUSN_EXTERN_VARIABLE
                                     [LIBFUSN_EXTERN]];
                 redefined := r |}.
Proof.
  intros Hl Hc. unfold linkage_block, pp_if at 1. rewrite Hl. cbn [negb].
  unfold companion_prelude, handed_to_companion, seq, pp_if.
  destruct (defined _WIN32 (macros st) && defined DLL_EXPORT (macros st));
    unfold pp_define, pp_include, skip; cbn [macros trace redefined];
    rewrite Hc; cbn [macros trace redefined];
    rewrite <- ?app_assoc; cbn [app]; eexists; reflexivity.
Qed.

Lemma block_shared_no_companion (st : pp_state) :
  defined HAVE_LOCAL_LIBFUSN (macros st) = false →
  path libfusn_extern_h_name = None →
  ∃ r, linkage_block path st
       = Fatal {| macros := handed_to_companion (macros st);
                  trace := trace st ++ companion_prelude (macros st);
                  redefined := r |}.
Proof.
  intros Hl Hc. unfold linkage_block, pp_if at 1. rewrite Hl. cbn [negb].
  unfold companion_prelude, handed_to_companion, seq, pp_if.
  destruct (defined _WIN32 (macros st) && defined DLL_EXPORT (macros st));
    unfold pp_define, pp_include, skip; cbn [macros trace redefined];
    rewrite Hc; cbn [macros trace redefined];
    rewrite <- ?app_assoc; cbn [app]; eexists; reflexivity.
Qed.
End Execution.

(** ** A first inclusion, from beginning to end *)

Section FirstInclusion.
Variable path : include_path.
Variable common : header.
Variable m : macro_table.
Hypothesis fresh : m !! _LIBFUSN_INTERNAL_EXTERN_H = None.
Hypothesis found : path common_h = Some common.

Local Abbreviation cfg := (at_conditionals common m).
Local Abbreviation entered :=
  {| macros := cfg; trace := opening m; redefined := [] |}.

Lemma first_local :
  defined HAVE_LOCAL_LIBFUSN cfg = true →
  ∃ r, libfusn_extern_h path (start m)
       = Done {| macros := <[LIBFUSN_EXTERN_VARIABLE := [kw_extern]]>
                             (<[LIBFUSN_EXTERN := []]> cfg);
                 trace := opening m
                          ++ [EvDefine LIBFUSN_EXTERN [];
                              EvDefine LIBFUSN_EXTERN_VARIABLE [kw_extern]];
                 redefined := r |}.
Proof.
  intros Hl. rewrite (enter_header path m common fresh found).
  exact (block_local path entered Hl).
Qed.

Lemma first_shared (companion : header) :
  defined HAVE_LOCAL_LIBFUSN cfg = false →
  path libfusn_extern_h_name = Some companion →
  ∃ r, libfusn_extern_h path (start m)
       = Done {| macros := <[LIBFUSN_EXTERN_VARIABLE := [LIBFUSN_EXTERN]]>
                             (companion (handed_to_companion cfg));
                 trace := opening m ++ companion_prelude cfg
                          ++ [EvDefine LIBFUSN_EXTERN_VARIABLE
                                     [LIBFUSN_EXTERN]];
                 redefined := r |}.
Proof.
  intros Hl Hc. rewrite (enter_header path m common fresh found).
  exact (block_shared path entered companion Hl Hc).
Qed.

Lemma first_shared_no_companion :
  defined HAVE_LOCAL_LIBFUSN cfg = false →
  path libfusn_extern_h_name = None →
  ∃ r, libfusn_extern_h path (start m)
       = Fatal {| macros := handed_to_companion cfg;
                  trace := opening m ++ companion_prelude cfg;
                  redefined := r |}.
Proof.
  intros Hl Hc. rewrite (enter_header path m common fresh found).
  exact (block_shared_no_companion path entered Hl Hc).
Qed.

(** The directives of a build that is not local, whether or not
    the companion header is found. *)
Lemma first_shared_trace :
  defined HAVE_LOCAL_LIBFUSN cfg = false →
  ∃ rest, trace (state_of (libfusn_extern_h path (start m)))
          = opening m ++ companion_prelude cfg ++ rest
          ∧ (rest = [] ∨ rest = [EvDefine LIBFUSN_EXTERN_VARIABLE
                                        [LIBFUSN_EXTERN]]).
Proof.
  intros Hl. destruct (path libfusn_extern_h_name) as [companion|] eqn:Hc.
  - destruct (first_shared companion Hl Hc) as [r ->].
    eexists. split; [reflexivity | by right].
  - destruct (first_shared_no_companion Hl Hc) as [r ->].
    exists []. rewrite app_nil_r. split; [reflexivity | by left].
Qed.
End FirstInclusion.

(** ** What the directives executed select *)

Lemma selects_app (mode : linkage_mode) (l1 l2 : list event) :
  selects mode (l1 ++ l2) = selects mode l1 || selects mode l2.
Proof. apply existsb_app. Qed.

Lemma includes_app (file : string) (l1 l2 : list event) :
  includes file (l1 ++ l2) = includes file l1 || includes file l2.
Proof. apply existsb_app. Qed.

Lemma defines_app (name : string) (l1 l2 : list event) :
  defines name (l1 ++ l2) = defines name l1 || defines name l2.
Proof. apply existsb_app. Qed.

Lemma selects_opening (mode : linkage_mode) (m : macro_table) :
  selects mode (opening m) = false.
Proof. by destruct mode. Qed.

Lemma selects_prelude (mode : linkage_mode) (cfg : macro_table) :
  selects mode (companion_prelude cfg)
  = match mode with
    | LocalLinkage => false
    | DllExport => defined LIBFUSN_DLL_EXPORT (handed_to_companion cfg)
    | DllImport => negb (defined LIBFUSN_DLL_EXPORT (handed_to_companion cfg))
    end.
Proof.
  unfold companion_prelude. rewrite selects_app.
  destruct (defined _WIN32 cfg && defined DLL_EXPORT cfg);
    destruct mode; cbn; by rewrite ?orb_false_r.
Qed.

(** ** Macro replacement *)

Lemma expand_nil (fuel : nat) (m : macro_table) (hide : list string) :
  expand fuel m hide [] = [].
Proof. by destruct fuel. Qed.

(** Tokens that are no macro names are left as they are. *)
Lemma expand_plain (fuel : nat) (m : macro_table) (hide : list string)
      (toks : list token) :
  Forall (fun t => m !! t = None) toks → expand fuel m hide toks = toks.
Proof.
  destruct fuel as [|fuel]; [done|]. cbn [expand].
  induction 1 as [|t toks Ht _ IH]; [done|].
  cbn [flat_map] in *. cbn beta. rewrite Ht, IH.
  by destruct (bool_decide (t ∈ hide)).
Qed.

Lemma size_pos_of_lookup (m : macro_table) (name : string)
      (body : list token) :
  m !! name = Some body → ∃ k, size m = S k.
Proof.
  intros H. destruct (size m) as [|k] eqn:E; [|by eexists].
  apply map_size_empty_inv in E. subst m. by rewrite lookup_empty in H.
Qed.

(** A macro with an empty replacement list expands to nothing. *)
Lemma expand_empty_macro (m : macro_table) (name : string) :
  m !! name = Some [] → expand_tokens m [name] = [].
Proof.
  intros H. unfold expand_tokens. cbn [expand flat_map].
  rewrite bool_decide_eq_false_2 by apply not_elem_of_nil.
  rewrite H, expand_nil. done.
Qed.

(** A macro whose replacement list is one token that is no macro
    expands to that token. *)
Lemma expand_keyword_macro (m : macro_table) (name : string) (kw : token) :
  m !! name = Some [kw] → m !! kw = None → expand_tokens m [name] = [kw].
Proof.
  intros H Hkw. unfold expand_tokens. cbn [expand flat_map].
  rewrite bool_decide_eq_false_2 by apply not_elem_of_nil.
  rewrite H, app_nil_r. apply expand_plain. by constructor.
Qed.

Lemma plain_body_Forall (name : string) (m : macro_table)
      (body : list token) :
  plain_body name m = true → m !! name = Some body →
  Forall (fun t => m !! t = None) body.
Proof.
  unfold plain_body. intros Hp Hn. rewrite Hn in Hp.
  apply Forall_forall. intros t Ht.
  rewrite forallb_forall in Hp. apply list_elem_of_In in Ht.
  specialize (Hp t Ht). apply negb_true_iff in Hp.
  by apply defined_false.
Qed.

(** A macro defined as the name of another expands as the other does,
    when the replacement list of the other holds no macro name. *)
Lemma expand_alias (m : macro_table) (alias name : string) :
  m !! alias = Some [name] → alias ≠ name → plain_body name m = true →
  expand_tokens m [alias] = expand_tokens m [name].
Proof.
  intros Ha Hne Hp. unfold expand_tokens.
  destruct (size_pos_of_lookup m alias _ Ha) as [k ->].
  cbn [expand flat_map].
  rewrite !(bool_decide_eq_false_2 (_ ∈ [])) by apply not_elem_of_nil.
  rewrite Ha. cbn [flat_map].
  rewrite bool_decide_eq_false_2
    by (rewrite list_elem_of_singleton; congruence).
  rewrite !app_nil_r. destruct (m !! name) as [body|] eqn:Hn; [|done].
  pose proof (plain_body_Forall name m body Hp Hn) as Hb.
  rewrite (expand_plain k m [name; alias] body Hb).
  symmetry. exact (expand_plain (S k) m [name] body Hb).
Qed.

(** ** The three builds *)

Lemma before_intro (e1 e2 : event) (l1 l2 l3 : list event) :
  before e1 e2 (l1 ++ e1 :: l2 ++ e2 :: l3).
Proof. by exists l1, l2, l3. Qed.

Lemma handed_export (cfg : macro_table) :
  defined _WIN32 cfg = true → defined DLL_EXPORT cfg = true →
  handed_to_companion cfg = <[LIBFUSN_DLL_EXPORT := []]> cfg
  ∧ companion_prelude cfg
    = [EvDefine LIBFUSN_DLL_EXPORT [];
       EvInclude libfusn_extern_h_name (<[LIBFUSN_DLL_EXPORT := []]> cfg)].
Proof.
  intros Hw Hd. unfold companion_prelude, handed_to_companion.
  by rewrite Hw, Hd.
Qed.

Lemma handed_unchanged (cfg : macro_table) :
  defined _WIN32 cfg && defined DLL_EXPORT cfg = false →
  handed_to_companion cfg = cfg
  ∧ companion_prelude cfg = [EvInclude libfusn_extern_h_name cfg].
Proof.
  intros Hn. unfold companion_prelude, handed_to_companion.
  by rewrite Hn.
Qed.

(** C1.  In a build where [HAVE_LOCAL_LIBFUSN] is not defined and
    [_WIN32] and [DLL_EXPORT] both are, the header executes
    [#define LIBFUSN_DLL_EXPORT] before [#include <libfusn/extern.h>]:
    the companion header is handed a table in which
    [LIBFUSN_DLL_EXPORT] is defined, so the export annotation is the
    one selected, and neither the import nor the local one.  When the
    companion header is found, the table the header leaves is the one
    the companion header made of that table, with
    [LIBFUSN_EXTERN_VARIABLE] added. *)
Theorem export_set_before_companion
        (path : include_path) (common : header) (m : macro_table) :
  m !! _LIBFUSN_INTERNAL_EXTERN_H = None →
  path common_h = Some common →
  defined HAVE_LOCAL_LIBFUSN (at_conditionals common m) = false →
  defined _WIN32 (at_conditionals common m) = true →
  defined DLL_EXPORT (at_conditionals common m) = true →
  let handed := <[LIBFUSN_DLL_EXPORT := []]> (at_conditionals common m) in
  let final := state_of (libfusn_extern_h path (start m)) in
  before (EvDefine LIBFUSN_DLL_EXPORT [])
         (EvInclude libfusn_extern_h_name handed) (trace final)
  ∧ defined LIBFUSN_DLL_EXPORT handed = true
  ∧ selects DllExport (trace final) = true
  ∧ selects DllImport (trace final) = false
  ∧ selects LocalLinkage (trace final) = false
  ∧ ∀ companion, path libfusn_extern_h_name = Some companion →
      macros final
      = <[LIBFUSN_EXTERN_VARIABLE := [LIBFUSN_EXTERN]]> (companion handed).
Proof.
  intros Hg Hc Hl Hw Hd handed final.
  destruct (handed_export _ Hw Hd) as [Hh Hp].
  destruct (first_shared_trace path common m Hg Hc Hl) as (rest & Ht & Hr).
  fold final in Ht.
  assert (He : defined LIBFUSN_DLL_EXPORT handed = true)
    by apply defined_insert.
  assert (Hrest : ∀ mode, selects mode rest = false).
  { intros mode. destruct Hr as [-> | ->]; by destruct mode. }
  split; [|split; [exact He|]].
  - rewrite Ht, Hp. apply (before_intro _ _ (opening m) [] rest).
  - rewrite Ht, !selects_app, !selects_opening, !selects_prelude, !Hrest.
    rewrite Hh. fold handed. rewrite He. repeat split; try done.
    intros companion Hco.
    destruct (first_shared path common m Hg Hc companion Hl Hco) as [r Hrun].
    unfold final. rewrite Hrun. cbn [state_of macros]. by rewrite Hh.
Qed.

(** C3.  In a build where [HAVE_LOCAL_LIBFUSN] is defined, the header
    completes and leaves [LIBFUSN_EXTERN] defined with an empty
    replacement list and [LIBFUSN_EXTERN_VARIABLE] defined as the
    single token [extern].  [LIBFUSN_EXTERN] therefore expands to
    nothing, and [LIBFUSN_EXTERN_VARIABLE] to [extern] (unless the
    build made a macro of the keyword itself). *)
Theorem local_definitions
        (path : include_path) (common : header) (m : macro_table) :
  m !! _LIBFUSN_INTERNAL_EXTERN_H = None →
  path common_h = Some common →
  defined HAVE_LOCAL_LIBFUSN (at_conditionals common m) = true →
  ∃ final,
    libfusn_extern_h path (start m) = Done final
    ∧ macros final !! LIBFUSN_EXTERN = Some []
    ∧ macros final !! LIBFUSN_EXTERN_VARIABLE = Some [kw_extern]
    ∧ expand_tokens (macros final) [LIBFUSN_EXTERN] = []
    ∧ (macros final !! kw_extern = None →
       expand_tokens (macros final) [LIBFUSN_EXTERN_VARIABLE] = [kw_extern]).
Proof.
  intros Hg Hc Hl.
  destruct (first_local path common m Hg Hc Hl) as [r Hrun].
  eexists. split; [exact Hrun|]. cbn [macros].
  assert (He : (<[LIBFUSN_EXTERN_VARIABLE := [kw_extern]]>
                  (<[LIBFUSN_EXTERN := []]> (at_conditionals common m)))
               !! LIBFUSN_EXTERN = Some []).
  { rewrite lookup_insert_ne by names_differ. apply lookup_insert_eq. }
  assert (Hv : (<[LIBFUSN_EXTERN_VARIABLE := [kw_extern]]>
                  (<[LIBFUSN_EXTERN := []]> (at_conditionals common m)))
               !! LIBFUSN_EXTERN_VARIABLE = Some [kw_extern])
    by apply lookup_insert_eq.
  repeat split; try done.
  - by apply expand_empty_macro.
  - intros Hk. by apply expand_keyword_macro.
Qed.

Lemma defines_opening (name : string) (m : macro_table) :
  name ≠ _LIBFUSN_INTERNAL_EXTERN_H → defines name (opening m) = false.
Proof.
  intros Hne. cbn. rewrite bool_decide_eq_false_2 by congruence. done.
Qed.

Lemma includes_opening (m : macro_table) :
  includes common_h (opening m) = true
  ∧ includes libfusn_extern_h_name (opening m) = false.
Proof. done. Qed.

(** C2, as amended.  In a build where [HAVE_LOCAL_LIBFUSN] is not
    defined, [_WIN32] and [DLL_EXPORT] are not both defined, and the
    build did not define [LIBFUSN_DLL_EXPORT] itself, the header
    executes no [#define LIBFUSN_DLL_EXPORT]: the companion header is
    handed the configuration as it is, with [LIBFUSN_DLL_EXPORT]
    undefined, so the import annotation is the one selected.  When
    the companion header is found, the table the header leaves is the
    one the companion header made of the configuration, with
    [LIBFUSN_EXTERN_VARIABLE] added. *)
Theorem import_when_export_unset
        (path : include_path) (common : header) (m : macro_table) :
  m !! _LIBFUSN_INTERNAL_EXTERN_H = None →
  path common_h = Some common →
  defined HAVE_LOCAL_LIBFUSN (at_conditionals common m) = false →
  defined _WIN32 (at_conditionals common m)
  && defined DLL_EXPORT (at_conditionals common m) = false →
  defined LIBFUSN_DLL_EXPORT (at_conditionals common m) = false →
  let cfg := at_conditionals common m in
  let final := state_of (libfusn_extern_h path (start m)) in
  (∃ rest, trace final
           = opening m ++ EvInclude libfusn_extern_h_name cfg :: rest)
  ∧ defines LIBFUSN_DLL_EXPORT (trace final) = false
  ∧ selects DllImport (trace final) = true
  ∧ selects DllExport (trace final) = false
  ∧ selects LocalLinkage (trace final) = false
  ∧ ∀ companion, path libfusn_extern_h_name = Some companion →
      macros final
      = <[LIBFUSN_EXTERN_VARIABLE := [LIBFUSN_EXTERN]]> (companion cfg).
Proof.
  intros Hg Hc Hl Hn Hu cfg final.
  destruct (handed_unchanged _ Hn) as [Hh Hp].
  destruct (first_shared_trace path common m Hg Hc Hl) as (rest & Ht & Hr).
  fold final in Ht.
  assert (Hrest : ∀ mode, selects mode rest = false).
  { intros mode. destruct Hr as [-> | ->]; by destruct mode. }
  assert (Hdef : defines LIBFUSN_DLL_EXPORT rest = false).
  { by destruct Hr as [-> | ->]. }
  split; [|split].
  - exists rest. by rewrite Ht, Hp.
  - rewrite Ht, !defines_app, defines_opening, Hdef, Hp by names_differ.
    done.
  - rewrite Ht, !selects_app, !selects_opening, !selects_prelude, !Hrest.
    rewrite Hh, Hu. repeat split; try done.
    intros companion Hco.
    destruct (first_shared path common m Hg Hc companion Hl Hco) as [r Hrun].
    unfold final. rewrite Hrun. cbn [state_of macros]. by rewrite Hh.
Qed.

Lemma block_local_any_path (p1 p2 : include_path) (st : pp_state) :
  defined HAVE_LOCAL_LIBFUSN (macros st) = true →
  linkage_block p1 st = linkage_block p2 st.
Proof. intros Hl. unfold linkage_block, pp_if. by rewrite Hl. Qed.

Lemma without_other (file other : string) (path : include_path) :
  other ≠ file → without file path other = path other.
Proof. intros Hne. unfold without. by rewrite decide_False. Qed.

Lemma local_trace_reading (m : macro_table) :
  let tr := opening m ++ [EvDefine LIBFUSN_EXTERN [];
                          EvDefine LIBFUSN_EXTERN_VARIABLE [kw_extern]] in
  includes common_h tr = true
  ∧ includes libfusn_extern_h_name tr = false
  ∧ defines LIBFUSN_DLL_EXPORT tr = false
  ∧ selects LocalLinkage tr = true
  ∧ selects DllExport tr = false
  ∧ selects DllImport tr = false.
Proof. done. Qed.

Lemma local_table_reading (cfg : macro_table) :
  let final := <[LIBFUSN_EXTERN_VARIABLE := [kw_extern]]>
                 (<[LIBFUSN_EXTERN := []]> cfg) in
  final !! LIBFUSN_EXTERN = Some []
  ∧ final !! LIBFUSN_EXTERN_VARIABLE = Some [kw_extern]
  ∧ final !! LIBFUSN_DLL_EXPORT = cfg !! LIBFUSN_DLL_EXPORT.
Proof.
  cbn zeta. split; [|split].
  - rewrite lookup_insert_ne by names_differ. apply lookup_insert_eq.
  - apply lookup_insert_eq.
  - by rewrite !lookup_insert_ne by names_differ.
Qed.

(** C4.  In a build where [HAVE_LOCAL_LIBFUSN] is defined, the header
    completes without executing [#include <libfusn/extern.h>]: the
    outcome is the same on an include path from which that file is
    missing.  No annotation of a dynamic library is selected, and
    [LIBFUSN_EXTERN] is left with an empty replacement list. *)
Theorem local_needs_no_companion
        (path : include_path) (common : header) (m : macro_table) :
  m !! _LIBFUSN_INTERNAL_EXTERN_H = None →
  path common_h = Some common →
  defined HAVE_LOCAL_LIBFUSN (at_conditionals common m) = true →
  ∃ final,
    libfusn_extern_h path (start m) = Done final
    ∧ libfusn_extern_h (without libfusn_extern_h_name path) (start m)
      = Done final
    ∧ includes libfusn_extern_h_name (trace final) = false
    ∧ selects DllExport (trace final) = false
    ∧ selects DllImport (trace final) = false
    ∧ macros final !! LIBFUSN_EXTERN = Some []
    ∧ macros final !! LIBFUSN_EXTERN_VARIABLE = Some [kw_extern].
Proof.
  intros Hg Hc Hl.
  destruct (first_local path common m Hg Hc Hl) as [r Hrun].
  assert (Hc' : without libfusn_extern_h_name path common_h = Some common).
  { rewrite without_other by names_differ. exact Hc. }
  eexists. split; [exact Hrun|]. split.
  - rewrite <- Hrun, (enter_header path m common Hg Hc),
      (enter_header _ m common Hg Hc').
    by apply block_local_any_path.
  - cbn [trace macros].
    destruct (local_trace_reading m) as (_ & ? & _ & _ & ? & ?).
    destruct (local_table_reading (at_conditionals common m)) as (? & ? & _).
    done.
Qed.

(** C10.  [HAVE_LOCAL_LIBFUSN] is tested first.  In a build where it
    is defined together with [_WIN32] and [DLL_EXPORT], the header
    executes no [#define LIBFUSN_DLL_EXPORT] and leaves that symbol as
    the configuration had it; the local mode is the one selected, no
    export or import annotation is, and [LIBFUSN_EXTERN] is left with
    an empty replacement list. *)
Theorem local_overrides_export
        (path : include_path) (common : header) (m : macro_table) :
  m !! _LIBFUSN_INTERNAL_EXTERN_H = None →
  path common_h = Some common →
  defined HAVE_LOCAL_LIBFUSN (at_conditionals common m) = true →
  defined _WIN32 (at_conditionals common m) = true →
  defined DLL_EXPORT (at_conditionals common m) = true →
  ∃ final,
    libfusn_extern_h path (start m) = Done final
    ∧ defines LIBFUSN_DLL_EXPORT (trace final) = false
    ∧ macros final !! LIBFUSN_DLL_EXPORT
      = at_conditionals common m !! LIBFUSN_DLL_EXPORT
    ∧ selects LocalLinkage (trace final) = true
    ∧ selects DllExport (trace final) = false
    ∧ selects DllImport (trace final) = false
    ∧ macros final !! LIBFUSN_EXTERN = Some []
    ∧ macros final !! LIBFUSN_EXTERN_VARIABLE = Some [kw_extern].
Proof.
  intros Hg Hc Hl _ _.
  destruct (first_local path common m Hg Hc Hl) as [r Hrun].
  eexists. split; [exact Hrun|]. cbn [trace macros].
  destruct (local_trace_reading m) as (_ & _ & ? & ? & ? & ?).
  destruct (local_table_reading (at_conditionals common m)) as (? & ? & ?).
  done.
Qed.

(** C8.  In a build where [HAVE_LOCAL_LIBFUSN] is not defined and the
    companion header is found, whatever [_WIN32] and [DLL_EXPORT]
    are, the header completes and leaves [LIBFUSN_EXTERN_VARIABLE]
    defined as the single token [LIBFUSN_EXTERN], while
    [LIBFUSN_EXTERN] is as the companion header left it.  The two
    names therefore expand alike (the annotation itself holding no
    macro name). *)
Theorem variable_follows_extern
        (path : include_path) (common companion : header)
        (m : macro_table) :
  m !! _LIBFUSN_INTERNAL_EXTERN_H = None →
  path common_h = Some common →
  path libfusn_extern_h_name = Some companion →
  defined HAVE_LOCAL_LIBFUSN (at_conditionals common m) = false →
  ∃ final,
    libfusn_extern_h path (start m) = Done final
    ∧ macros final !! LIBFUSN_EXTERN_VARIABLE = Some [LIBFUSN_EXTERN]
    ∧ macros final !! LIBFUSN_EXTERN
      = companion (handed_to_companion (at_conditionals common m))
        !! LIBFUSN_EXTERN
    ∧ (plain_body LIBFUSN_EXTERN (macros final) = true →
       expand_tokens (macros final) [LIBFUSN_EXTERN_VARIABLE]
       = expand_tokens (macros final) [LIBFUSN_EXTERN]).
Proof.
  intros Hg Hc Hco Hl.
  destruct (first_shared path common m Hg Hc companion Hl Hco) as [r Hrun].
  eexists. split; [exact Hrun|]. cbn [macros].
  split; [apply lookup_insert_eq|]. split.
  - by rewrite lookup_insert_ne by names_differ.
  - intros Hp. apply expand_alias; [apply lookup_insert_eq| |exact Hp].
    names_differ.
Qed.

(** C9.  Whatever the configuration, a first inclusion starts with
    [#define _LIBFUSN_INTERNAL_EXTERN_H] and [#include <common.h>]:
    the inclusion of [common.h] precedes every test of
    [HAVE_LOCAL_LIBFUSN].  A local build is stopped by a missing
    [common.h] like any other, and when [common.h] is there it
    includes [common.h] and not [libfusn/extern.h]. *)
Theorem common_always_included (path : include_path) (m : macro_table) :
  m !! _LIBFUSN_INTERNAL_EXTERN_H = None →
  let final := state_of (libfusn_extern_h path (start m)) in
  (∃ rest, trace final = opening m ++ rest)
  ∧ includes common_h (trace final) = true
  ∧ (path common_h = None →
     libfusn_extern_h path (start m) = Fatal final
     ∧ trace final = opening m)
  ∧ (∀ common, path common_h = Some common →
       defined HAVE_LOCAL_LIBFUSN (at_conditionals common m) = true →
       includes common_h (trace final) = true
       ∧ includes libfusn_extern_h_name (trace final) = false).
Proof.
  intros Hg final.
  assert (Hopen : ∃ rest, trace final = opening m ++ rest).
  { unfold final. destruct (path common_h) as [common|] eqn:Hc.
    - destruct (defined HAVE_LOCAL_LIBFUSN (at_conditionals common m))
        eqn:Hl.
      + destruct (first_local path common m Hg Hc Hl) as [r ->].
        by eexists.
      + destruct (first_shared_trace path common m Hg Hc Hl)
          as (rest & -> & _).
        by eexists.
    - rewrite (enter_header_no_common path m Hg Hc).
      exists []. by rewrite app_nil_r. }
  split; [exact Hopen|]. split; [|split].
  - destruct Hopen as [rest ->]. by rewrite includes_app.
  - intros Hc. unfold final.
    by rewrite (enter_header_no_common path m Hg Hc).
  - intros common Hc Hl. unfold final.
    destruct (first_local path common m Hg Hc Hl) as [r ->].
    cbn [state_of trace].
    by destruct (local_trace_reading m) as (? & ? & _).
Qed.

Lemma handed_defined (cfg : macro_table) :
  defined _WIN32 cfg && defined DLL_EXPORT cfg = true →
  defined LIBFUSN_DLL_EXPORT (handed_to_companion cfg) = true.
Proof.
  intros Hb. unfold handed_to_companion. rewrite Hb. apply defined_insert.
Qed.

(** C6.  On a first inclusion with [common.h] found, whatever
    [HAVE_LOCAL_LIBFUSN], [_WIN32] and [DLL_EXPORT] are, the
    directives executed select one of the three modes, and only
    one.  It is the local mode exactly when [HAVE_LOCAL_LIBFUSN] is
    defined, and the export mode when it is not and [_WIN32] and
    [DLL_EXPORT] both are. *)
Theorem exactly_one_mode
        (path : include_path) (common : header) (m : macro_table) :
  m !! _LIBFUSN_INTERNAL_EXTERN_H = None →
  path common_h = Some common →
  let cfg := at_conditionals common m in
  let final := state_of (libfusn_extern_h path (start m)) in
  ∃ mode, selects mode (trace final) = true
          ∧ (∀ other, selects other (trace final) = true → other = mode)
          ∧ (mode = LocalLinkage ↔ defined HAVE_LOCAL_LIBFUSN cfg = true)
          ∧ (defined HAVE_LOCAL_LIBFUSN cfg = false →
             defined _WIN32 cfg && defined DLL_EXPORT cfg = true →
             mode = DllExport).
Proof.
  intros Hg Hc cfg final. unfold final, cfg.
  destruct (defined HAVE_LOCAL_LIBFUSN (at_conditionals common m)) eqn:Hl.
  - destruct (first_local path common m Hg Hc Hl) as [r ->].
    cbn [state_of trace].
    destruct (local_trace_reading m) as (_ & _ & _ & Hloc & Hexp & Himp).
    exists LocalLinkage. split; [exact Hloc|]. split; [|done].
    intros [] Ho; [done|congruence|congruence].
  - destruct (first_shared_trace path common m Hg Hc Hl)
      as (rest & -> & Hr).
    assert (Hrest : ∀ mode, selects mode rest = false).
    { intros mode. destruct Hr as [-> | ->]; by destruct mode. }
    assert (Hsel : ∀ mode,
               selects mode (opening m
                             ++ companion_prelude (at_conditionals common m)
                             ++ rest)
               = selects mode
                   (companion_prelude (at_conditionals common m))).
    { intros mode. rewrite !selects_app, selects_opening, Hrest.
      by rewrite orb_false_r. }
    destruct (defined LIBFUSN_DLL_EXPORT
                (handed_to_companion (at_conditionals common m))) eqn:He.
    + exists DllExport. rewrite Hsel, selects_prelude.
      split; [exact He|]. split; [|done].
      intros [] Ho; rewrite Hsel, selects_prelude, ?He in Ho; done.
    + exists DllImport. rewrite Hsel, selects_prelude, He.
      split; [done|]. split; [|split; [done|]].
      * intros [] Ho; rewrite Hsel, selects_prelude, ?He in Ho; done.
      * intros _ Hb. apply handed_defined in Hb. congruence.
Qed.

(** ** Repeated inclusion *)

Section Guard.
Variable path : include_path.
Hypothesis guard_kept :
  ∀ file h, path file = Some h → keeps _LIBFUSN_INTERNAL_EXTERN_H h.

Lemma guard_after_block (st st' : pp_state) :
  defined _LIBFUSN_INTERNAL_EXTERN_H (macros st) = true →
  linkage_block path st = Done st' →
  defined _LIBFUSN_INTERNAL_EXTERN_H (macros st') = true.
Proof.
  intros Hg Hrun.
  destruct (defined HAVE_LOCAL_LIBFUSN (macros st)) eqn:Hl.
  - destruct (block_local path st Hl) as [r Hr].
    rewrite Hr in Hrun. injection Hrun as <-. cbn [macros].
    by rewrite !defined_insert_ne by names_differ.
  - destruct (path libfusn_extern_h_name) as [companion|] eqn:Hc.
    + destruct (block_shared path st companion Hl Hc) as [r Hr].
      rewrite Hr in Hrun. injection Hrun as <-. cbn [macros].
      rewrite defined_insert_ne by names_differ.
      apply (guard_kept _ _ Hc). unfold handed_to_companion.
      destruct (defined _WIN32 (macros st)
                && defined DLL_EXPORT (macros st)); [|exact Hg].
      by rewrite defined_insert_ne by names_differ.
    + destruct (block_shared_no_companion path st Hl Hc) as [r Hr].
      by rewrite Hr in Hrun.
Qed.

Lemma guard_after (st st' : pp_state) :
  libfusn_extern_h path st = Done st' →
  defined _LIBFUSN_INTERNAL_EXTERN_H (macros st') = true.
Proof.
  intros Hrun.
  destruct (defined _LIBFUSN_INTERNAL_EXTERN_H (macros st)) eqn:Hg.
  - rewrite (reenter_header path st Hg) in Hrun. by injection Hrun as <-.
  - revert Hrun. unfold libfusn_extern_h, pp_if. rewrite Hg. cbn [negb].
    unfold seq at 1, pp_define at 1. unfold seq at 1, pp_include.
    cbn [macros trace redefined].
    destruct (path common_h) as [common|] eqn:Hc; [|done].
    apply guard_after_block. cbn [macros].
    apply (guard_kept _ _ Hc), defined_insert.
Qed.

Lemma include_times_once (n : nat) (st : pp_state) :
  include_times path (S n) st = libfusn_extern_h path st.
Proof.
  revert st. induction n as [|n IH]; intros st.
  - cbn [include_times]. unfold seq, skip.
    by destruct (libfusn_extern_h path st).
  - change (include_times path (S (S n)))
      with (libfusn_extern_h path >>> include_times path (S n)).
    unfold seq at 1.
    destruct (libfusn_extern_h path st) as [st'|st'] eqn:Hrun; [|done].
    rewrite IH. apply reenter_header, (guard_after st st' Hrun).
Qed.
End Guard.

(** C5.  With included files that leave the guard alone, including
    the header [n >= 1] times in a row has the outcome of including
    it once: the same macro table, the same directives executed and
    the same redefinitions diagnosed, none of them by an inclusion
    after the first.  A completed inclusion leaves
    [_LIBFUSN_INTERNAL_EXTERN_H] defined, and with it defined the
    header executes nothing. *)
Theorem inclusion_idempotent
        (path : include_path) (n : nat) (st : pp_state) :
  (∀ file h, path file = Some h → keeps _LIBFUSN_INTERNAL_EXTERN_H h) →
  1 ≤ n →
  include_times path n st = libfusn_extern_h path st
  ∧ macros (state_of (include_times path n st))
    = macros (state_of (libfusn_extern_h path st))
  ∧ redefined (state_of (include_times path n st))
    = redefined (state_of (libfusn_extern_h path st))
  ∧ (∀ st', libfusn_extern_h path st = Done st' →
            defined _LIBFUSN_INTERNAL_EXTERN_H (macros st') = true)
  ∧ (∀ st', defined _LIBFUSN_INTERNAL_EXTERN_H (macros st') = true →
            libfusn_extern_h path st' = Done st').
Proof.
  intros Hk Hn. destruct n as [|n]; [lia|].
  rewrite (include_times_once path Hk n st).
  repeat split; try done.
  - intros st'. apply (guard_after path Hk).
  - intros st'. apply reenter_header.
Qed.

(** ** Two builds compared *)

Lemma handed_agree (a b : macro_table) :
  same_configuration a b →
  a !! LIBFUSN_DLL_EXPORT = b !! LIBFUSN_DLL_EXPORT →
  handed_to_companion a !! LIBFUSN_DLL_EXPORT
  = handed_to_companion b !! LIBFUSN_DLL_EXPORT.
Proof.
  intros (_ & Hw & Hd) He. unfold handed_to_companion.
  rewrite <- Hw, <- Hd.
  destruct (defined _WIN32 a && defined DLL_EXPORT a); [|exact He].
  by rewrite !lookup_insert_eq.
Qed.

(** C7, as amended.  Take two builds that have not included the
    header yet, in which [HAVE_LOCAL_LIBFUSN], [_WIN32] and
    [DLL_EXPORT] are defined or undefined alike and
    [LIBFUSN_DLL_EXPORT] has the same definition or none, and, when
    the build is not local, a companion header whose
    [LIBFUSN_EXTERN] and [LIBFUSN_DLL_EXPORT] depend on nothing but
    the [LIBFUSN_DLL_EXPORT] it is handed.  Then the header leaves
    the same definitions of [LIBFUSN_EXTERN],
    [LIBFUSN_EXTERN_VARIABLE] and [LIBFUSN_DLL_EXPORT] in both,
    whatever else the two builds define. *)
Theorem definitions_determined
        (path : include_path) (common : header) (m1 m2 : macro_table) :
  m1 !! _LIBFUSN_INTERNAL_EXTERN_H = None →
  m2 !! _LIBFUSN_INTERNAL_EXTERN_H = None →
  path common_h = Some common →
  same_configuration (at_conditionals common m1) (at_conditionals common m2) →
  at_conditionals common m1 !! LIBFUSN_DLL_EXPORT
  = at_conditionals common m2 !! LIBFUSN_DLL_EXPORT →
  (defined HAVE_LOCAL_LIBFUSN (at_conditionals common m1) = false →
   ∃ companion, path libfusn_extern_h_name = Some companion
                ∧ decided_by_dll_export companion) →
  same_definitions
    (macros (state_of (libfusn_extern_h path (start m1))))
    (macros (state_of (libfusn_extern_h path (start m2)))).
Proof.
  intros Hg1 Hg2 Hc Hsame He Hcomp.
  pose proof Hsame as (Hl & _ & _).
  destruct (defined HAVE_LOCAL_LIBFUSN (at_conditionals common m1)) eqn:Hl1;
    symmetry in Hl.
  - destruct (first_local path common m1 Hg1 Hc Hl1) as [r1 ->].
    destruct (first_local path common m2 Hg2 Hc Hl) as [r2 ->].
    cbn [state_of macros].
    destruct (local_table_reading (at_conditionals common m1))
      as (E1 & V1 & D1).
    destruct (local_table_reading (at_conditionals common m2))
      as (E2 & V2 & D2).
    unfold same_definitions. rewrite E1, E2, V1, V2, D1, D2. done.
  - destruct (Hcomp eq_refl) as (companion & Hco & Hdec).
    destruct (first_shared path common m1 Hg1 Hc companion Hl1 Hco)
      as [r1 ->].
    destruct (first_shared path common m2 Hg2 Hc companion Hl Hco)
      as [r2 ->].
    cbn [state_of macros].
    destruct (Hdec _ _ (handed_agree _ _ Hsame He)) as [HE HD].
    unfold same_definitions.
    rewrite !lookup_insert_eq, !(lookup_insert_ne _ LIBFUSN_EXTERN_VARIABLE)
      by names_differ.
    done.
Qed.

(** ** Macro replacement never runs short

    Every nested replacement hides one more name of the table, so
    once [fuel] covers the names not hidden yet, more of it changes
    nothing: [expand_tokens] is the replacement carried to its end. *)

Lemma hidden_all (m : macro_table) (hide : list string) (t : string) :
  NoDup hide → (∀ x, x ∈ hide → is_Some (m !! x)) →
  size m ≤ length hide → t ∉ hide → m !! t = None.
Proof.
  intros Hnd Hsub Hsize Ht.
  destruct (m !! t) as [body|] eqn:E; [|done]. exfalso.
  assert (Hin : list_to_set (t :: hide) ⊆ dom m).
  { intros x Hx. apply elem_of_list_to_set in Hx. apply elem_of_dom.
    apply elem_of_cons in Hx as [-> | Hx]; [by eexists | by apply Hsub]. }
  apply subseteq_size in Hin. rewrite size_dom in Hin.
  rewrite size_list_to_set in Hin by (constructor; done).
  cbn [length] in Hin. lia.
Qed.

Lemma expand_fuel_enough (m : macro_table) (fuel more : nat)
      (hide : list string) (toks : list token) :
  NoDup hide → (∀ x, x ∈ hide → is_Some (m !! x)) →
  size m ≤ fuel + length hide →
  expand (fuel + more) m hide toks = expand fuel m hide toks.
Proof.
  revert hide toks. induction fuel as [|fuel IH]; intros hide toks Hnd Hsub Hs.
  - cbn [Nat.add expand]. destruct more as [|more]; [done|].
    cbn [expand]. induction toks as [|t toks IHt]; [done|].
    cbn [flat_map]. rewrite IHt.
    destruct (bool_decide (t ∈ hide)) eqn:Eh; [done|].
    apply bool_decide_eq_false in Eh.
    by rewrite (hidden_all m hide t Hnd Hsub Hs Eh).
  - cbn [Nat.add expand]. induction toks as [|t toks IHt]; [done|].
    cbn [flat_map]. rewrite IHt. f_equal.
    destruct (bool_decide (t ∈ hide)) eqn:Eh; [done|].
    apply bool_decide_eq_false in Eh.
    destruct (m !! t) as [body|] eqn:E; [|done].
    apply IH.
    + by constructor.
    + intros x Hx. apply elem_of_cons in Hx as [-> | Hx];
        [by eexists | by apply Hsub].
    + cbn [length]. lia.
Qed.

Lemma expand_tokens_stable (m : macro_table) (more : nat)
      (toks : list token) :
  expand (S (size m) + more) m [] toks = expand_tokens m toks.
Proof.
  unfold expand_tokens. apply expand_fuel_enough.
  - constructor.
  - intros x Hx. by apply not_elem_of_nil in Hx.
  - cbn [length]. lia.
Qed.

(** ** The sample environments behave *)

Lemma extern_h_model_keeps (name : string) : keeps name extern_h_model.
Proof.
  intros m Hm. unfold extern_h_model.
  destruct (defined LIBFUSN_DLL_EXPORT m);
    (destruct (decide (LIBFUSN_EXTERN = name)) as [<- | Hne];
     [apply defined_insert | by rewrite defined_insert_ne]).
Qed.

Lemma shared_path_keeps (name file : string) (h : header) :
  shared_path file = Some h → keeps name h.
Proof.
  unfold shared_path. intros Hf.
  destruct (decide (file = common_h)).
  - injection Hf as <-. by intros m.
  - destruct (decide (file = libfusn_extern_h_name)); [|done].
    injection Hf as <-. apply extern_h_model_keeps.
Qed.

Lemma extern_h_model_decided : decided_by_dll_export extern_h_model.
Proof.
  intros a b He. unfold extern_h_model, defined. rewrite He.
  destruct (b !! LIBFUSN_DLL_EXPORT) eqn:Hb;
    rewrite !lookup_insert_eq, !lookup_insert_ne by names_differ;
    (split; [reflexivity | congruence]).
Qed.

(** ** The header run on the sample environments *)

Example run_windows_dll :
  let final := state_of (libfusn_extern_h shared_path (start windows_dll)) in
  map written (trace final)
  = [("#define", "_LIBFUSN_INTERNAL_EXTERN_H"); ("#include", "common.h");
     ("#define", "LIBFUSN_DLL_EXPORT"); ("#include", "libfusn/extern.h");
     ("#define", "LIBFUSN_EXTERN_VARIABLE")]%string
  ∧ macros final !! LIBFUSN_EXTERN = Some dll_export_attribute
  ∧ expand_tokens (macros final) [LIBFUSN_EXTERN_VARIABLE]
    = dll_export_attribute
  ∧ redefined final = [].
Proof. vm_compute. repeat split. Qed.

Example run_bare_build :
  let final := state_of (libfusn_extern_h shared_path (start bare_build)) in
  map written (trace final)
  = [("#define", "_LIBFUSN_INTERNAL_EXTERN_H"); ("#include", "common.h");
     ("#include", "libfusn/extern.h");
     ("#define", "LIBFUSN_EXTERN_VARIABLE")]%string
  ∧ macros final !! LIBFUSN_DLL_EXPORT = None
  ∧ macros final !! LIBFUSN_EXTERN = Some dll_import_attribute
  ∧ expand_tokens (macros final) [LIBFUSN_EXTERN_VARIABLE]
    = dll_import_attribute.
Proof. vm_compute. repeat split. Qed.

Example run_local_build :
  let final := state_of (libfusn_extern_h local_path (start windows_dll)) in
  map written (trace final)
  = [("#define", "_LIBFUSN_INTERNAL_EXTERN_H"); ("#include", "common.h");
     ("#define", "LIBFUSN_EXTERN");
     ("#define", "LIBFUSN_EXTERN_VARIABLE")]%string
  ∧ macros final !! LIBFUSN_EXTERN = Some []
  ∧ macros final !! LIBFUSN_EXTERN_VARIABLE = Some [kw_extern]
  ∧ expand_tokens (macros final) [LIBFUSN_EXTERN_VARIABLE] = [kw_extern]
  ∧ macros final !! LIBFUSN_DLL_EXPORT = None.
Proof. vm_compute. repeat split. Qed.

(** Without [libfusn/extern.h] on the include path, a build that is
    not local stops at line 38. *)
Example run_shared_without_companion :
  ∃ st, libfusn_extern_h (without libfusn_extern_h_name shared_path)
                         (start windows_dll) = Fatal st
        ∧ map written (trace st)
          = [("#define", "_LIBFUSN_INTERNAL_EXTERN_H");
             ("#include", "common.h"); ("#define", "LIBFUSN_DLL_EXPORT");
             ("#include", "libfusn/extern.h")]%string.
Proof. eexists. vm_compute. split; reflexivity. Qed.

(** A second inclusion in a row executes nothing. *)
Example run_twice :
  include_times shared_path 2 (start windows_dll)
  = libfusn_extern_h shared_path (start windows_dll).
Proof. vm_compute. reflexivity. Qed.

(** ** The theorems at work on the sample environments *)

Lemma export_set_before_companion_witness :
  let cfg := at_conditionals plain_common_h windows_dll in
  let handed := <[LIBFUSN_DLL_EXPORT := []]> cfg in
  let final := state_of (libfusn_extern_h shared_path (start windows_dll)) in
  (windows_dll !! _LIBFUSN_INTERNAL_EXTERN_H = None
   ∧ shared_path common_h = Some plain_common_h
   ∧ defined HAVE_LOCAL_LIBFUSN cfg = false
   ∧ defined _WIN32 cfg = true
   ∧ defined DLL_EXPORT cfg = true)
  ∧ before (EvDefine LIBFUSN_DLL_EXPORT [])
           (EvInclude libfusn_extern_h_name handed) (trace final)
  ∧ selects DllExport (trace final) = true
  ∧ selects DllImport (trace final) = false
  ∧ macros final
    = <[LIBFUSN_EXTERN_VARIABLE := [LIBFUSN_EXTERN]]> (extern_h_model handed)
  ∧ macros final !! LIBFUSN_EXTERN = Some dll_export_attribute.
Proof.
  intros cfg handed final.
  destruct (export_set_before_companion
              shared_path plain_common_h windows_dll
              eq_refl eq_refl eq_refl eq_refl eq_refl)
    as (Hb & _ & He & Hi & _ & Hm).
  split; [repeat split|].
  split; [exact Hb|]. split; [exact He|]. split; [exact Hi|].
  split; [exact (Hm extern_h_model eq_refl) | reflexivity].
Defined.

(** C2, as it is stated, fails in a build that defines
    [LIBFUSN_DLL_EXPORT] itself: [HAVE_LOCAL_LIBFUSN], [_WIN32] and
    [DLL_EXPORT] are undefined, yet the companion header is handed a
    table in which [LIBFUSN_DLL_EXPORT] is defined, and the export
    annotation is the one selected. *)
Lemma import_fails_with_preset_export :
  let cfg := at_conditionals plain_common_h preset_export in
  let final :=
    state_of (libfusn_extern_h shared_path (start preset_export)) in
  preset_export !! _LIBFUSN_INTERNAL_EXTERN_H = None
  ∧ shared_path common_h = Some plain_common_h
  ∧ defined HAVE_LOCAL_LIBFUSN cfg = false
  ∧ defined _WIN32 cfg && defined DLL_EXPORT cfg = false
  ∧ trace final
    = opening preset_export
      ++ [EvInclude libfusn_extern_h_name cfg;
          EvDefine LIBFUSN_EXTERN_VARIABLE [LIBFUSN_EXTERN]]
  ∧ defined LIBFUSN_DLL_EXPORT cfg = true
  ∧ selects DllImport (trace final) = false
  ∧ selects DllExport (trace final) = true
  ∧ macros final !! LIBFUSN_EXTERN = Some dll_export_attribute.
Proof. vm_compute. repeat split. Qed.

Lemma import_when_export_unset_witness :
  let cfg := at_conditionals plain_common_h bare_build in
  let final := state_of (libfusn_extern_h shared_path (start bare_build)) in
  (bare_build !! _LIBFUSN_INTERNAL_EXTERN_H = None
   ∧ shared_path common_h = Some plain_common_h
   ∧ defined HAVE_LOCAL_LIBFUSN cfg = false
   ∧ defined _WIN32 cfg && defined DLL_EXPORT cfg = false
   ∧ defined LIBFUSN_DLL_EXPORT cfg = false)
  ∧ defines LIBFUSN_DLL_EXPORT (trace final) = false
  ∧ selects DllImport (trace final) = true
  ∧ selects DllExport (trace final) = false
  ∧ macros final
    = <[LIBFUSN_EXTERN_VARIABLE := [LIBFUSN_EXTERN]]> (extern_h_model cfg)
  ∧ macros final !! LIBFUSN_EXTERN = Some dll_import_attribute.
Proof.
  intros cfg final.
  destruct (import_when_export_unset
              shared_path plain_common_h bare_build
              eq_refl eq_refl eq_refl eq_refl eq_refl)
    as (_ & Hd & Hi & He & _ & Hm).
  split; [repeat split|].
  split; [exact Hd|]. split; [exact Hi|]. split; [exact He|].
  split; [exact (Hm extern_h_model eq_refl) | reflexivity].
Defined.

Lemma local_definitions_witness :
  (windows_dll !! _LIBFUSN_INTERNAL_EXTERN_H = None
   ∧ local_path common_h = Some local_common_h
   ∧ defined HAVE_LOCAL_LIBFUSN (at_conditionals local_common_h windows_dll)
     = true)
  ∧ ∃ final,
      libfusn_extern_h local_path (start windows_dll) = Done final
      ∧ macros final !! LIBFUSN_EXTERN = Some []
      ∧ macros final !! LIBFUSN_EXTERN_VARIABLE = Some [kw_extern]
      ∧ expand_tokens (macros final) [LIBFUSN_EXTERN] = [].
Proof.
  split; [repeat split|].
  destruct (local_definitions local_path local_common_h windows_dll
              eq_refl eq_refl eq_refl)
    as (final & Hrun & He & Hv & Hx & _).
  exists final. repeat split; assumption.
Defined.

Lemma local_needs_no_companion_witness :
  (windows_dll !! _LIBFUSN_INTERNAL_EXTERN_H = None
   ∧ local_path common_h = Some local_common_h
   ∧ local_path libfusn_extern_h_name = None
   ∧ defined HAVE_LOCAL_LIBFUSN (at_conditionals local_common_h windows_dll)
     = true)
  ∧ ∃ final,
      libfusn_extern_h local_path (start windows_dll) = Done final
      ∧ includes libfusn_extern_h_name (trace final) = false
      ∧ selects DllExport (trace final) = false
      ∧ selects DllImport (trace final) = false
      ∧ macros final !! LIBFUSN_EXTERN = Some [].
Proof.
  split; [repeat split|].
  destruct (local_needs_no_companion local_path local_common_h windows_dll
              eq_refl eq_refl eq_refl)
    as (final & Hrun & _ & Hi & He & Hm & Hx & _).
  exists final. repeat split; assumption.
Defined.

Lemma inclusion_idempotent_witness :
  (∀ file h, shared_path file = Some h →
             keeps _LIBFUSN_INTERNAL_EXTERN_H h)
  ∧ 1 ≤ 3
  ∧ include_times shared_path 3 (start windows_dll)
    = libfusn_extern_h shared_path (start windows_dll)
  ∧ redefined (state_of (include_times shared_path 3 (start windows_dll)))
    = redefined (state_of (libfusn_extern_h shared_path (start windows_dll))).
Proof.
  pose proof (shared_path_keeps _LIBFUSN_INTERNAL_EXTERN_H) as Hk.
  assert (Hn : 1 ≤ 3) by lia.
  destruct (inclusion_idempotent shared_path 3 (start windows_dll) Hk Hn)
    as (Hrun & _ & Hr & _).
  split; [exact Hk|]. split; [exact Hn|]. split; [exact Hrun | exact Hr].
Defined.

Lemma exactly_one_mode_witness :
  let final := state_of (libfusn_extern_h shared_path (start windows_dll)) in
  (windows_dll !! _LIBFUSN_INTERNAL_EXTERN_H = None
   ∧ shared_path common_h = Some plain_common_h)
  ∧ selects DllExport (trace final) = true
  ∧ ∀ other, selects other (trace final) = true → other = DllExport.
Proof.
  intros final. split; [repeat split|].
  destruct (exactly_one_mode shared_path plain_common_h windows_dll
              eq_refl eq_refl)
    as (mode & Hsel & Honly & _ & Hexp).
  rewrite (Hexp eq_refl eq_refl) in Hsel, Honly.
  split; [exact Hsel | exact Honly].
Defined.

(** C7, as it is stated, fails: the two builds below define or leave
    undefined [HAVE_LOCAL_LIBFUSN], [_WIN32] and [DLL_EXPORT] alike
    (none of them is defined), and the header leaves different
    definitions of [LIBFUSN_DLL_EXPORT] and of [LIBFUSN_EXTERN] in
    them, because one of the builds defined [LIBFUSN_DLL_EXPORT]
    itself. *)
Lemma definitions_differ_with_preset_export :
  let after_bare :=
    macros (state_of (libfusn_extern_h shared_path (start bare_build))) in
  let after_preset :=
    macros (state_of (libfusn_extern_h shared_path (start preset_export))) in
  bare_build !! _LIBFUSN_INTERNAL_EXTERN_H = None
  ∧ preset_export !! _LIBFUSN_INTERNAL_EXTERN_H = None
  ∧ same_configuration (at_conditionals plain_common_h bare_build)
                       (at_conditionals plain_common_h preset_export)
  ∧ after_bare !! LIBFUSN_DLL_EXPORT = None
  ∧ after_preset !! LIBFUSN_DLL_EXPORT = Some []
  ∧ after_bare !! LIBFUSN_EXTERN = Some dll_import_attribute
  ∧ after_preset !! LIBFUSN_EXTERN = Some dll_export_attribute
  ∧ ¬ same_definitions after_bare after_preset.
Proof.
  cbn zeta. repeat split; try (vm_compute; reflexivity).
  intros (_ & _ & Hd). vm_compute in Hd. discriminate Hd.
Qed.

Lemma definitions_determined_witness :
  (bare_build !! _LIBFUSN_INTERNAL_EXTERN_H = None
   ∧ release_build !! _LIBFUSN_INTERNAL_EXTERN_H = None
   ∧ shared_path common_h = Some plain_common_h
   ∧ same_configuration (at_conditionals plain_common_h bare_build)
                        (at_conditionals plain_common_h release_build)
   ∧ at_conditionals plain_common_h bare_build !! LIBFUSN_DLL_EXPORT
     = at_conditionals plain_common_h release_build !! LIBFUSN_DLL_EXPORT
   ∧ shared_path libfusn_extern_h_name = Some extern_h_model
   ∧ decided_by_dll_export extern_h_model)
  ∧ bare_build ≠ release_build
  ∧ same_definitions
      (macros (state_of (libfusn_extern_h shared_path (start bare_build))))
      (macros (state_of (libfusn_extern_h shared_path
                           (start release_build)))).
Proof.
  assert (Hs : same_configuration
                 (at_conditionals plain_common_h bare_build)
                 (at_conditionals plain_common_h release_build))
    by (repeat split).
  split; [|split].
  - do 3 (split; [reflexivity|]). split; [exact Hs|].
    do 2 (split; [reflexivity|]). exact extern_h_model_decided.
  - intros Heq.
    assert (Hl : bare_build !! "NDEBUG"%string
                 = release_build !! "NDEBUG"%string) by (rewrite Heq; done).
    vm_compute in Hl. discriminate Hl.
  - apply (definitions_determined shared_path plain_common_h
             bare_build release_build eq_refl eq_refl eq_refl Hs eq_refl).
    intros _. exists extern_h_model.
    split; [reflexivity | exact extern_h_model_decided].
Defined.

Lemma variable_follows_extern_witness :
  (windows_dll !! _LIBFUSN_INTERNAL_EXTERN_H = None
   ∧ shared_path common_h = Some plain_common_h
   ∧ shared_path libfusn_extern_h_name = Some extern_h_model
   ∧ defined HAVE_LOCAL_LIBFUSN (at_conditionals plain_common_h windows_dll)
     = false)
  ∧ ∃ final,
      libfusn_extern_h shared_path (start windows_dll) = Done final
      ∧ macros final !! LIBFUSN_EXTERN_VARIABLE = Some [LIBFUSN_EXTERN]
      ∧ (plain_body LIBFUSN_EXTERN (macros final) = true →
         expand_tokens (macros final) [LIBFUSN_EXTERN_VARIABLE]
         = expand_tokens (macros final) [LIBFUSN_EXTERN]).
Proof.
  split; [repeat split|].
  destruct (variable_follows_extern
              shared_path plain_common_h extern_h_model windows_dll
              eq_refl eq_refl eq_refl eq_refl)
    as (final & Hrun & Hv & _ & Hx).
  exists final. split; [exact Hrun|]. split; [exact Hv | exact Hx].
Defined.

Lemma common_always_included_witness :
  let final := state_of (libfusn_extern_h local_path (start bare_build)) in
  bare_build !! _LIBFUSN_INTERNAL_EXTERN_H = None
  ∧ includes common_h (trace final) = true
  ∧ includes libfusn_extern_h_name (trace final) = false.
Proof.
  intros final.
  destruct (common_always_included local_path bare_build eq_refl)
    as (_ & _ & _ & Hl).
  destruct (Hl local_common_h eq_refl eq_refl) as [Hc He].
  split; [reflexivity|]. split; [exact Hc | exact He].
Defined.

Lemma local_overrides_export_witness :
  (windows_dll !! _LIBFUSN_INTERNAL_EXTERN_H = None
   ∧ local_path common_h = Some local_common_h
   ∧ defined HAVE_LOCAL_LIBFUSN (at_conditionals local_common_h windows_dll)
     = true
   ∧ defined _WIN32 (at_conditionals local_common_h windows_dll) = true
   ∧ defined DLL_EXPORT (at_conditionals local_common_h windows_dll) = true)
  ∧ ∃ final,
      libfusn_extern_h local_path (start windows_dll) = Done final
      ∧ defines LIBFUSN_DLL_EXPORT (trace final) = false
      ∧ macros final !! LIBFUSN_DLL_EXPORT = None
      ∧ selects LocalLinkage (trace final) = true
      ∧ selects DllExport (trace final) = false
      ∧ macros final !! LIBFUSN_EXTERN = Some [].
Proof.
  split; [repeat split|].
  destruct (local_overrides_export local_path local_common_h windows_dll
              eq_refl eq_refl eq_refl eq_refl eq_refl)
    as (final & Hrun & Hd & Hm & Hl & He & _ & Hx & _).
  exists final. repeat split; assumption.
Defined.

(** ** Beyond the three builds: what the header leaves alone *)

Lemma defined_insert_mono (n name : string) (body : list token)
      (m : macro_table) :
  defined name m = true → defined name (<[n := body]> m) = true.
Proof.
  intros Hm. destruct (decide (n = name)) as [-> | Hne].
  - apply defined_insert.
  - by rewrite defined_insert_ne.
Qed.

Section NoUndef.
Variable path : include_path.
Variable name : string.
Hypothesis kept : ∀ file h, path file = Some h → keeps name h.

Lemma block_keeps_defined (st st' : pp_state) :
  defined name (macros st) = true →
  linkage_block path st = Done st' →
  defined name (macros st') = true.
Proof.
  intros Hn Hrun.
  destruct (defined HAVE_LOCAL_LIBFUSN (macros st)) eqn:Hl.
  - destruct (block_local path st Hl) as [r Hr].
    rewrite Hr in Hrun. injection Hrun as <-. cbn [macros].
    by do 2 apply defined_insert_mono.
  - destruct (path libfusn_extern_h_name) as [companion|] eqn:Hc.
    + destruct (block_shared path st companion Hl Hc) as [r Hr].
      rewrite Hr in Hrun. injection Hrun as <-. cbn [macros].
      apply defined_insert_mono, (kept _ _ Hc).
      unfold handed_to_companion.
      destruct (defined _WIN32 (macros st)
                && defined DLL_EXPORT (macros st)); [|exact Hn].
      by apply defined_insert_mono.
    + destruct (block_shared_no_companion path st Hl Hc) as [r Hr].
      by rewrite Hr in Hrun.
Qed.

Lemma header_keeps_defined (st st' : pp_state) :
  libfusn_extern_h path st = Done st' →
  defined name (macros st) = true →
  defined name (macros st') = true.
Proof.
  intros Hrun Hn.
  destruct (defined _LIBFUSN_INTERNAL_EXTERN_H (macros st)) eqn:Hg.
  - rewrite (reenter_header path st Hg) in Hrun. by injection Hrun as <-.
  - revert Hrun. unfold libfusn_extern_h, pp_if. rewrite Hg. cbn [negb].
    unfold seq at 1, pp_define at 1. unfold seq at 1, pp_include.
    cbn [macros trace redefined].
    destruct (path common_h) as [common|] eqn:Hc; [|done].
    apply block_keeps_defined. cbn [macros].
    by apply (kept _ _ Hc), defined_insert_mono.
Qed.
End NoUndef.

(** X1.  The header has no [#undef].  With included files that do
    not undefine [name], a macro that is defined when the header is
    entered is still defined when it completes, whatever the
    configuration and whether or not the header was included
    before. *)
Theorem never_undefines
        (path : include_path) (name : string) (st st' : pp_state) :
  (∀ file h, path file = Some h → keeps name h) →
  libfusn_extern_h path st = Done st' →
  defined name (macros st) = true →
  defined name (macros st') = true.
Proof. intros Hk. by apply header_keeps_defined. Qed.

Lemma defines_in (name : string) (tr : list event) :
  defines name tr = true → ∃ body, In (EvDefine name body) tr.
Proof.
  unfold defines. rewrite existsb_exists. intros (e & Hin & He).
  destruct e as [n body|]; [|done].
  apply bool_decide_eq_true in He. subst n. by exists body.
Qed.

Lemma defines_own_opening (name : string) (body : list token)
      (m : macro_table) :
  In (EvDefine name body) (opening m) → In name own_macros.
Proof.
  intros [Hin | [Hin | []]]; [|discriminate Hin].
  injection Hin as <- _. cbn. tauto.
Qed.

Lemma defines_own_prelude (name : string) (body : list token)
      (cfg : macro_table) :
  In (EvDefine name body) (companion_prelude cfg) → In name own_macros.
Proof.
  unfold companion_prelude.
  destruct (defined _WIN32 cfg && defined DLL_EXPORT cfg); cbn.
  - intros [Hin | [Hin | []]]; [|discriminate Hin].
    injection Hin as <- _. tauto.
  - intros [Hin | []]. discriminate Hin.
Qed.

(** X2.  Whatever the include path and the table it is entered with,
    the only macros the header executes a [#define] for are
    [_LIBFUSN_INTERNAL_EXTERN_H], [LIBFUSN_DLL_EXPORT],
    [LIBFUSN_EXTERN] and [LIBFUSN_EXTERN_VARIABLE]: it reads
    [HAVE_LOCAL_LIBFUSN], [_WIN32] and [DLL_EXPORT] and never defines
    them. *)
Theorem defines_only_own_macros
        (path : include_path) (m : macro_table) (name : string) :
  defines name (trace (state_of (libfusn_extern_h path (start m)))) = true →
  In name own_macros
  ∧ name ≠ HAVE_LOCAL_LIBFUSN ∧ name ≠ _WIN32 ∧ name ≠ DLL_EXPORT.
Proof.
  intros Hd.
  assert (Hown : In name own_macros).
  { apply defines_in in Hd as [body Hin]. revert Hin.
    destruct (m !! _LIBFUSN_INTERNAL_EXTERN_H) as [g|] eqn:Hg.
    - rewrite (reenter_header path (start m)); [by intros []|].
      cbn [start macros]. unfold defined. by rewrite Hg.
    - destruct (path common_h) as [common|] eqn:Hc.
      + destruct (defined HAVE_LOCAL_LIBFUSN (at_conditionals common m))
          eqn:Hl.
        * destruct (first_local path common m Hg Hc Hl) as [r ->].
          cbn [state_of trace]. intros Hin.
          apply in_app_or in Hin as [Hin | Hin];
            [by apply defines_own_opening in Hin|].
          destruct Hin as [Hin | [Hin | []]];
            injection Hin as <- _; cbn; tauto.
        * destruct (first_shared_trace path common m Hg Hc Hl)
            as (rest & -> & Hr).
          intros Hin. apply in_app_or in Hin as [Hin | Hin];
            [by apply defines_own_opening in Hin|].
          apply in_app_or in Hin as [Hin | Hin];
            [by apply defines_own_prelude in Hin|].
          destruct Hr as [-> | ->]; [by destruct Hin|].
          destruct Hin as [Hin | []]. injection Hin as <- _. cbn. tauto.
      + rewrite (enter_header_no_common path m Hg Hc).
        cbn [state_of trace]. apply defines_own_opening. }
  split; [exact Hown|].
  repeat split; intros ->; revert Hown; cbn;
    intros [H | [H | [H | [H | []]]]]; vm_compute in H; discriminate H.
Qed.

(** X3.  In a local build the header changes two macros only:
    every name other than [LIBFUSN_EXTERN] and
    [LIBFUSN_EXTERN_VARIABLE] has, when the header completes, the
    definition (or none) that the configuration gave it. *)
Theorem local_frame
        (path : include_path) (common : header) (m : macro_table)
        (name : string) :
  m !! _LIBFUSN_INTERNAL_EXTERN_H = None →
  path common_h = Some common →
  defined HAVE_LOCAL_LIBFUSN (at_conditionals common m) = true →
  name ≠ LIBFUSN_EXTERN → name ≠ LIBFUSN_EXTERN_VARIABLE →
  macros (state_of (libfusn_extern_h path (start m))) !! name
  = at_conditionals common m !! name.
Proof.
  intros Hg Hc Hl He Hv.
  destruct (first_local path common m Hg Hc Hl) as [r ->].
  cbn [state_of macros]. by rewrite !lookup_insert_ne.
Qed.


(** ** Redefinitions diagnosed *)





(** ** The companion header and the alias *)

(** X7.  The header does not check that the companion header defined
    [LIBFUSN_EXTERN].  When it did not, the header still completes,
    and [LIBFUSN_EXTERN_VARIABLE] then expands to the identifier
    [LIBFUSN_EXTERN], left as it is. *)
Theorem alias_of_undefined_extern
        (path : include_path) (common companion : header)
        (m : macro_table) :
  m !! _LIBFUSN_INTERNAL_EXTERN_H = None →
  path common_h = Some common →
  path libfusn_extern_h_name = Some companion →
  defined HAVE_LOCAL_LIBFUSN (at_conditionals common m) = false →
  companion (handed_to_companion (at_conditionals common m))
    !! LIBFUSN_EXTERN = None →
  ∃ final,
    libfusn_extern_h path (start m) = Done final
    ∧ macros final !! LIBFUSN_EXTERN = None
    ∧ expand_tokens (macros final) [LIBFUSN_EXTERN_VARIABLE]
      = [LIBFUSN_EXTERN].
Proof.
  intros Hg Hc Hco Hl He.
  destruct (first_shared path common m Hg Hc companion Hl Hco) as [r Hrun].
  eexists. split; [exact Hrun|]. cbn [macros].
  assert (Hx : (<[LIBFUSN_EXTERN_VARIABLE := [LIBFUSN_EXTERN]]>
                  (companion (handed_to_companion (at_conditionals common m))))
               !! LIBFUSN_EXTERN = None).
  { by rewrite lookup_insert_ne by names_differ. }
  split; [exact Hx|].
  apply expand_keyword_macro; [apply lookup_insert_eq | exact Hx].
Qed.

Lemma handed_other (cfg : macro_table) (name : string) :
  name ≠ LIBFUSN_DLL_EXPORT →
  handed_to_companion cfg !! name = cfg !! name.
Proof.
  intros Hne. unfold handed_to_companion.
  destruct (defined _WIN32 cfg && defined DLL_EXPORT cfg); [|done].
  by rewrite lookup_insert_ne.
Qed.

(** X8.  In a build that is not local, the companion header is
    handed the configuration with at most [LIBFUSN_DLL_EXPORT]
    changed, and what it makes of it is the table the header
    leaves, with at most [LIBFUSN_EXTERN_VARIABLE] changed. *)
Theorem shared_frame
        (path : include_path) (common companion : header)
        (m : macro_table) :
  m !! _LIBFUSN_INTERNAL_EXTERN_H = None →
  path common_h = Some common →
  path libfusn_extern_h_name = Some companion →
  defined HAVE_LOCAL_LIBFUSN (at_conditionals common m) = false →
  let cfg := at_conditionals common m in
  let final := state_of (libfusn_extern_h path (start m)) in
  ∃ seen,
    In (EvInclude libfusn_extern_h_name seen) (trace final)
    ∧ (∀ name, name ≠ LIBFUSN_DLL_EXPORT → seen !! name = cfg !! name)
    ∧ (∀ name, name ≠ LIBFUSN_EXTERN_VARIABLE →
         macros final !! name = companion seen !! name).
Proof.
  intros Hg Hc Hco Hl cfg final. exists (handed_to_companion cfg).
  unfold final.
  destruct (first_shared path common m Hg Hc companion Hl Hco) as [r ->].
  cbn [state_of trace macros]. split; [|split].
  - apply in_or_app. right. apply in_or_app. left.
    unfold companion_prelude. apply in_or_app. right. by left.
  - intros name Hne. by apply handed_other.
  - intros name Hne. by rewrite lookup_insert_ne.
Qed.

(** ** These theorems on the sample environments *)

Lemma never_undefines_witness :
  let final := state_of (libfusn_extern_h shared_path (start windows_dll)) in
  (∀ file h, shared_path file = Some h → keeps _WIN32 h)
  ∧ libfusn_extern_h shared_path (start windows_dll) = Done final
  ∧ defined _WIN32 (macros (start windows_dll)) = true
  ∧ defined _WIN32 (macros final) = true.
Proof.
  intros final.
  pose proof (shared_path_keeps _WIN32) as Hk.
  assert (Hrun : libfusn_extern_h shared_path (start windows_dll)
                 = Done final) by reflexivity.
  split; [exact Hk|]. split; [exact Hrun|]. split; [reflexivity|].
  exact (never_undefines shared_path _WIN32 (start windows_dll) final
           Hk Hrun eq_refl).
Defined.

Lemma defines_only_own_macros_witness :
  defines LIBFUSN_DLL_EXPORT
    (trace (state_of (libfusn_extern_h shared_path (start windows_dll))))
  = true
  ∧ In LIBFUSN_DLL_EXPORT own_macros
  ∧ LIBFUSN_DLL_EXPORT ≠ DLL_EXPORT.
Proof.
  destruct (defines_only_own_macros shared_path windows_dll
              LIBFUSN_DLL_EXPORT eq_refl)
    as (Hown & _ & _ & Hne).
  split; [reflexivity|]. split; [exact Hown | exact Hne].
Defined.

Lemma local_frame_witness :
  (windows_dll !! _LIBFUSN_INTERNAL_EXTERN_H = None
   ∧ local_path common_h = Some local_common_h
   ∧ defined HAVE_LOCAL_LIBFUSN (at_conditionals local_common_h windows_dll)
     = true
   ∧ _WIN32 ≠ LIBFUSN_EXTERN ∧ _WIN32 ≠ LIBFUSN_EXTERN_VARIABLE)
  ∧ macros (state_of (libfusn_extern_h local_path (start windows_dll)))
      !! _WIN32
    = at_conditionals local_common_h windows_dll !! _WIN32.
Proof.
  assert (He : _WIN32 ≠ LIBFUSN_EXTERN) by (vm_compute; discriminate).
  assert (Hv : _WIN32 ≠ LIBFUSN_EXTERN_VARIABLE)
    by (vm_compute; discriminate).
  split.
  - do 3 (split; [reflexivity|]). split; [exact He | exact Hv].
  - exact (local_frame local_path local_common_h windows_dll _WIN32
             eq_refl eq_refl eq_refl He Hv).
Defined.



Lemma alias_of_undefined_extern_witness :
  (bare_build !! _LIBFUSN_INTERNAL_EXTERN_H = None
   ∧ silent_path common_h = Some plain_common_h
   ∧ silent_path libfusn_extern_h_name = Some plain_common_h
   ∧ defined HAVE_LOCAL_LIBFUSN (at_conditionals plain_common_h bare_build)
     = false
   ∧ plain_common_h
       (handed_to_companion (at_conditionals plain_common_h bare_build))
       !! LIBFUSN_EXTERN = None)
  ∧ ∃ final,
      libfusn_extern_h silent_path (start bare_build) = Done final
      ∧ macros final !! LIBFUSN_EXTERN = None
      ∧ expand_tokens (macros final) [LIBFUSN_EXTERN_VARIABLE]
        = [LIBFUSN_EXTERN].
Proof.
  split; [repeat split|].
  exact (alias_of_undefined_extern silent_path plain_common_h plain_common_h
           bare_build eq_refl eq_refl eq_refl eq_refl eq_refl).
Defined.

Lemma shared_frame_witness :
  let cfg := at_conditionals plain_common_h windows_dll in
  let final := state_of (libfusn_extern_h shared_path (start windows_dll)) in
  (windows_dll !! _LIBFUSN_INTERNAL_EXTERN_H = None
   ∧ shared_path common_h = Some plain_common_h
   ∧ shared_path libfusn_extern_h_name = Some extern_h_model
   ∧ defined HAVE_LOCAL_LIBFUSN cfg = false)
  ∧ ∃ seen,
      In (EvInclude libfusn_extern_h_name seen) (trace final)
      ∧ (∀ name, name ≠ LIBFUSN_DLL_EXPORT → seen !! name = cfg !! name)
      ∧ (∀ name, name ≠ LIBFUSN_EXTERN_VARIABLE →
           macros final !! name = extern_h_model seen !! name).
Proof.
  intros cfg final. split; [repeat split|].
  exact (shared_frame shared_path plain_common_h extern_h_model windows_dll
           eq_refl eq_refl eq_refl eq_refl).
Defined.
